(** * Batch GCD: the finalizer and result check of [main], and the tree passes

    The driver [main] of batchgcd.cpp reads a list of moduli, has the product
    tree and the remainder tree computed (Parts A and B), and then, in Part C,
    turns every leaf remainder into a gcd and sorts the leaves into clean,
    duplicate and compromised ones, counting "false positives".

    Numbers are GMP integers ([mpz_class]): they are modelled by [Z], with
    [Z.quot] and [Z.rem] for the truncating [/] and [%] of [mpz_class] and
    [Z.gcd] for [gcd], which is never negative.  Vectors are lists read with
    [!!] and written with [<[i:=v]>]; an index outside the vector is
    undefined behaviour in C++ and is a failure here. *)

From Stdlib Require Import ZArith Znumtheory Lia.
From Stdlib Require HexadecimalString HexadecimalZ HexadecimalPos.
From stdpp Require Import base numbers option list strings pretty gmap.
From Equations Require Import Equations.

Local Open Scope Z_scope.

(** ** Outcomes *)

(** A run either completes with a value or stops.  [EmptyInputError] and
    [StorageError] are the failures of the tree builder and of the level
    store; [DivisionByZero] is GMP's abort on a zero divisor; [OutOfRange] is
    an access past the end of a vector; [NonTermination] is a loop whose
    counter wraps before it reaches its bound. *)
Inductive failure : Set :=
| EmptyInputError
| StorageError
| DivisionByZero
| OutOfRange
| NonTermination.

Inductive result (A : Type) : Type :=
| Ok (a : A)
| Err (e : failure).

Arguments Ok {A} a.
Arguments Err {A} e.

#[global] Instance result_ret : MRet result := fun A a => Ok a.

#[global] Instance result_bind : MBind result :=
  fun A B f r => match r with Ok a => f a | Err e => Err e end.

(** [v[i]] on a [std::vector]. *)
Definition at_index {A : Type} (v : list A) (i : nat) : result A :=
  match v !! i with
  | Some a => Ok a
  | None => Err OutOfRange
  end.

(** A counted loop: the body is run for each index in turn and the first
    failure ends the run. *)
Fixpoint for_each {St : Type} (body : nat -> St -> result St)
    (idx : list nat) (s : St) : result St :=
  match idx with
  | [] => Ok s
  | i :: rest => s' ← body i s; for_each body rest s'
  end.

(** ** The level store and the two tree passes

    [main] calls [product_tree], [remainders_squares] and
    [read_level_from_file], which utils.hpp declares; their bodies are not
    part of batchgcd.cpp.  They are modelled here from the specification. *)

Module Utils.

(** Modelled from the spec: the level store behind [read_level_from_file]
    (section 4.1, BigIntegerStore).  A level is an ordered sequence of
    integers kept under its level index; writing always succeeds here, and
    reading a level that was never written is a [StorageError]. *)
Definition persistLevel (levelIndex : nat) (sequence : list Z)
    (st : gmap nat (list Z)) : gmap nat (list Z) :=
  <[levelIndex := sequence]> st.

(** Modelled from the spec: [loadLevel] of section 4.1, under the name
    [main] calls it by. *)
Definition read_level_from_file (levelIndex : nat) (st : gmap nat (list Z))
    : result (list Z) :=
  match st !! levelIndex with
  | Some sequence => Ok sequence
  | None => Err StorageError
  end.

(** Modelled from the spec: one level of the product tree from the level
    below (section 3, Tree Level).  There are ⌈n/2⌉ entries; entry [j] is the
    product of entries [2j] and [2j+1], or a copy of entry [2j] when entry
    [2j+1] is absent. *)
Definition next_level (lvl : list Z) : list Z :=
  omap (fun j : nat =>
          match lvl !! (2 * j)%nat, lvl !! (2 * j + 1)%nat with
          | Some a, Some b => Some (a * b)
          | Some a, None => Some a
          | None, _ => None
          end)
       (seq 0 ((length lvl + 1) / 2)%nat).

(** Modelled from the spec: the builder's loop (section 4.2).  The level in
    hand, already persisted as level [L], is the root when it has one entry;
    otherwise the next level is derived and persisted. *)
Equations? build (L : nat) (lvl : list Z) (st : gmap nat (list Z))
    : nat * gmap nat (list Z) by wf (length lvl) lt :=
  build L [] st := (L, st);
  build L [_] st := (L, st);
  build L (a :: b :: t) st :=
    build (S L) (next_level (a :: b :: t))
          (persistLevel (S L) (next_level (a :: b :: t)) st).
Proof.
  assert (Hle : forall (f : nat -> option Z) (l : list nat),
             (length (omap f l) <= length l)%nat).
  { intros f l. induction l as [|j l IH]; [simpl; lia|].
    change (omap f (j :: l))
      with (match f j with Some y => y :: omap f l | None => omap f l end).
    destruct (f j); simpl; lia. }
  unfold next_level.
  eapply Nat.le_lt_trans; [apply Hle|].
  rewrite length_seq. simpl length.
  apply Nat.Div0.div_lt_upper_bound. lia.
Qed.

(** Modelled from the spec: the ProductTreeBuilder (section 4.2).  An empty
    input is an [EmptyInputError]; otherwise level 0 is the input, every
    level is persisted, and the height of the tree is returned. *)
Definition product_tree (X : list Z) (st : gmap nat (list Z))
    : result (nat * gmap nat (list Z)) :=
  match X with
  | [] => Err EmptyInputError
  | _ => Ok (build 0 X (persistLevel 0 X st))
  end.

(** Modelled from the spec: one descent step of the remainder tree (section
    4.3).  Node [j] of the level below is a child of node [j / 2]; its
    running remainder is its parent's, reduced modulo the square of the
    node's own value. *)
Definition descend (parent_rem lvl : list Z) : list Z :=
  omap (fun '(j, v) => (fun p => p mod (v * v)) <$> parent_rem !! (j / 2)%nat)
       (imap pair lvl).

(** Modelled from the spec: the descent from level [L] to level 0, reading
    each level below from the store. *)
Fixpoint propagate (L : nat) (rem : list Z) (st : gmap nat (list Z))
    : result (list Z) :=
  match L with
  | O => Ok rem
  | S L' =>
      lvl ← read_level_from_file L' st;
      propagate L' (descend rem lvl) st
  end.

(** Modelled from the spec: the RemainderTreePropagator (section 4.3).  The
    running value at the root level is the root value itself; the result is
    the running remainders of level 0. *)
Definition remainders_squares (levels : nat) (st : gmap nat (list Z))
    : result (list Z) :=
  root ← read_level_from_file levels st;
  propagate levels root st.

(** The two derivations above, by recursion on the level two entries at a
    time; [next_level_pair_up] and [descend_reduce_children] show them equal
    to the indexed definitions. *)
Fixpoint pair_up (lvl : list Z) : list Z :=
  match lvl with
  | a :: b :: t => a * b :: pair_up t
  | _ => lvl
  end.

Fixpoint reduce_children (parent_rem lvl : list Z) : list Z :=
  match parent_rem, lvl with
  | p :: rest, a :: b :: t =>
      p mod (a * a) :: p mod (b * b) :: reduce_children rest t
  | p :: _, [a] => [p mod (a * a)]
  | _, _ => []
  end.

(** The exact product of a sequence of integers. *)
Definition product (l : list Z) : Z := foldr Z.mul 1 l.

End Utils.

(** ** The driver, from batchgcd.cpp *)

Module Main.

(** *** Numeric base (lines 56-66) *)

(** [base_10_flag] is a static [int], zero until [getopt_long_only] stores 1
    in it on meeting the [base10] option. *)
Definition base_10_flag_init : Z := 0.

Definition getopt_long_only (base10_given : bool) (base_10_flag : Z) : Z :=
  if base10_given then 1 else base_10_flag.

(** [int base = 16; if (base_10_flag) base = 10;] *)
Definition set_base (base_10_flag : Z) : Z :=
  let base := 16 in
  if negb (base_10_flag =? 0) then 10 else base.

Definition base_of_options (base10_given : bool) : Z :=
  set_base (getopt_long_only base10_given base_10_flag_init).

(** *** Part C: the final gcds (lines 108-111) *)

(** One round of the loop body:
    [R[i] = R[i] / input_moduli[i]; R[i] = gcd(R[i], input_moduli[i]);] *)
Definition gcd_step (input_moduli : list Z) (i : nat) (R : list Z)
    : result (list Z) :=
  r ← at_index R i;
  x ← at_index input_moduli i;
  if x =? 0 then Err DivisionByZero else
  let R := <[i := r ÷ x]> R in
  r ← at_index R i;
  Ok (<[i := Z.gcd r x]> R).

(** The counter is an [unsigned int] compared with a [size_t]: on a vector
    of 2^32 entries or more it wraps to 0 before reaching the bound. *)
Definition final_gcds (input_moduli R : list Z) : result (list Z) :=
  if 2 ^ 32 <=? Z.of_nat (length input_moduli) then Err NonTermination
  else for_each (gcd_step input_moduli) (seq 0 (length input_moduli)) R.

(** *** The result check (lines 132-151) *)

Record report : Set := Report {
  compromised : list string;
  duplicates : list string;
  false_positives : Z
}.

Definition no_findings : report := Report [] [] 0.

(** [os << IDs[i] << "," << factor_p.get_str() << "," << factor_q.get_str()] *)
Definition compromised_line (id : string) (factor_p factor_q : Z) : string :=
  id +:+ "," +:+ pretty factor_p +:+ "," +:+ pretty factor_q.

(** One round of the loop body (lines 138-150).  [input_moduli[i]] is within
    the vector by the bound of the loop; [IDs[i]] is read only in the two
    branches that push an identifier.  [false_positives] is an [int] that
    counts rounds of a loop bounded by an [int], so it cannot overflow. *)
Definition verify_step (IDs : list string) (input_moduli R : list Z)
    (i : nat) (out : report) : result report :=
  r ← at_index R i;
  if negb (r =? 1) then
    x ← at_index input_moduli i;
    if (r =? 0) || negb (x `rem` r =? 0) then
      Ok (Report (compromised out) (duplicates out) (false_positives out + 1))
    else if r =? x then
      id ← at_index IDs i;
      Ok (Report (compromised out) (duplicates out ++ [id])
                 (false_positives out))
    else
      let factor_p := r in
      let factor_q := x ÷ r in
      id ← at_index IDs i;
      Ok (Report (compromised out ++ [compromised_line id factor_p factor_q])
                 (duplicates out) (false_positives out))
  else Ok out.

(** [static_cast<int>(input_moduli.size())]: the size reduced to a signed
    32-bit value. *)
Definition int_of_size (n : nat) : Z :=
  (Z.of_nat n + 2 ^ 31) mod 2 ^ 32 - 2 ^ 31.

Definition verify (IDs : list string) (input_moduli R : list Z)
    : result report :=
  for_each (verify_step IDs input_moduli R)
           (seq 0 (Z.to_nat (int_of_size (length input_moduli)))) no_findings.

(** Part C followed by the check, on the moduli re-read from level 0 and the
    leaf remainders of Part B. *)
Definition finalize (IDs : list string) (input_moduli R : list Z)
    : result report :=
  R ← final_gcds input_moduli R;
  verify IDs input_moduli R.

(** *** The two loops, leaf by leaf

    The value Part C leaves in [R[i]]; the branch of the check a leaf
    takes; what each branch adds to the report.  [final_gcds_leaf_gcds] and
    [verify_report_of] relate them to the two loops. *)
Definition leaf_gcd (x r : Z) : Z := Z.gcd (r ÷ x) x.

Definition leaf_gcds (input_moduli R : list Z) : list Z :=
  zip_with leaf_gcd input_moduli R ++ drop (length input_moduli) R.

(** The branch of lines 138-149 taken on [x = input_moduli[i]] and
    [r = R[i]]: [Clean] is the leaf with [R[i] == 1], for which nothing is
    recorded; [Anomaly] is the branch that counts a false positive.  [||]
    does not evaluate [x % r] when [r] is 0. *)
Inductive verdict : Set :=
| Clean
| Anomaly
| Duplicate
| Compromised (factor_p factor_q : Z).

Definition classify (x r : Z) : verdict :=
  if negb (r =? 1) then
    if (r =? 0) || negb (x `rem` r =? 0) then Anomaly
    else if r =? x then Duplicate
    else Compromised r (x ÷ r)
  else Clean.

Definition record (id : string) (v : verdict) (out : report) : report :=
  match v with
  | Clean => out
  | Anomaly =>
      Report (compromised out) (duplicates out) (false_positives out + 1)
  | Duplicate =>
      Report (compromised out) (duplicates out ++ [id]) (false_positives out)
  | Compromised p q =>
      Report (compromised out ++ [compromised_line id p q]) (duplicates out)
             (false_positives out)
  end.

Definition report_of (branches : list (string * verdict)) : report :=
  foldl (fun out '(id, v) => record id v out) no_findings branches.

#[global] Instance verdict_eq_dec : EqDecision verdict.
Proof. solve_decision. Defined.

(** *** Parts A to C in sequence (lines 79-151)

    [IDs] and [input_moduli] are what [read_moduli_from_csv] delivers, and
    [st] is the level store as the run finds it. *)
Definition main (IDs : list string) (input_moduli : list Z)
    (st : gmap nat (list Z)) : result report :=
  '(levels, st) ← Utils.product_tree input_moduli st;
  R ← Utils.remainders_squares levels st;
  input_moduli ← Utils.read_level_from_file 0 st;
  finalize IDs input_moduli R.

(** *** Elapsed time (lines 121-127)

    [static_cast<int>(elapsedA + elapsedB + elapsedC)] drops the fraction of
    the sum of the three elapsed times; [whole] is that sum with its
    fraction dropped.  [int] has 32 bits: a value outside its range cannot
    be represented and the conversion is undefined, so there is no result
    (compilers for x86-64 emit a conversion that then yields -2^31). *)
Definition static_cast_int (whole : Z) : option Z :=
  if (- 2 ^ 31 <=? whole) && (whole <? 2 ^ 31) then Some whole else None.

(** Lines 121-125; [/] and [%=] on [int] truncate, and no step leaves the
    range of [int]. *)
Definition split_time (whole : Z) : option (Z * Z * Z) :=
  totalSec ← static_cast_int whole;
  let totalMin := totalSec ÷ 60 in
  let totalHour := totalMin ÷ 60 in
  let totalSec := totalSec `rem` 60 in
  let totalMin := totalMin `rem` 60 in
  Some (totalHour, totalMin, totalSec).

(** *** The result files (lines 159-171) and [output_base16] (lines 186-193)

    A file is the string of what was streamed to it, kept under its name;
    opening an [ofstream] for writing starts from an empty file.  Opening
    and writing are taken to succeed. *)
Definition endl_char : Ascii.ascii :=
  Ascii.Ascii false true false true false false false false.

Definition newline : string := String endl_char "".

(** [file << v[i] << "\n";] *)
Definition write_line (v : list string) (i : nat) (file : string)
    : result string :=
  line ← at_index v i;
  Ok (file +:+ line +:+ newline).

(** The loops of lines 163-165 and 168-170; the counter is an
    [unsigned int], as in Part C. *)
Definition write_lines (v : list string) : result string :=
  if 2 ^ 32 <=? Z.of_nat (length v) then Err NonTermination
  else for_each (write_line v) (seq 0 (length v)) "".

Definition write_reports (out : report) (fs : gmap string string)
    : result (gmap string string) :=
  file ← write_lines (compromised out);
  let fs := <["compromised.csv" := file]> fs in
  file ← write_lines (duplicates out);
  Ok (<["duplicates.csv" := file]> fs).

(** [get_str(16)] of an [mpz_class]: the digits of the magnitude in base 16
    with lower-case letters, after a minus sign for a negative number. *)
Definition get_str16 (x : Z) : string :=
  HexadecimalString.NilZero.string_of_int (Z.to_hex_int x).

(** [file << X->at(i).get_str(16) << "\n";] where [at] throws on an index
    past the end. *)
Definition output_line (X : list Z) (i : nat) (file : string)
    : result string :=
  x ← at_index X i;
  Ok (file +:+ get_str16 x +:+ newline).

Definition output_base16 (X : list Z) (fs : gmap string string)
    : result (gmap string string) :=
  file ← (if 2 ^ 32 <=? Z.of_nat (length X) then Err NonTermination
          else for_each (output_line X) (seq 0 (length X)) "");
  Ok (<["base16.moduli" := file]> fs).

(** Helpers for the statements about files: whether a string holds a line
    break, the file that holds the given lines, and the lines of a file. *)
Fixpoint has_newline (s : string) : bool :=
  match s with
  | EmptyString => false
  | String c s' => Ascii.eqb c endl_char || has_newline s'
  end.

Definition file_of_lines (lines : list string) : string :=
  foldr (fun line rest => line +:+ newline +:+ rest) "" lines.

#[global] Instance divide_dec (a b : Z) : Decision (a | b).
Proof.
  destruct ((b =? 0) || negb (a =? 0) && (b mod a =? 0)) eqn:E; [left | right];
    by destruct (Z.BoolSpec_divide a b).
Defined.

Fixpoint lines_from (cur file : string) : list string :=
  match file with
  | EmptyString => []
  | String c rest =>
      if Ascii.eqb c endl_char then cur :: lines_from "" rest
      else lines_from (cur +:+ String c "") rest
  end.

End Main.


(** * Properties *)

(** ** The product tree and the remainder tree *)

Section TreeFacts.

Import Utils.

Implicit Types (lvl rem X : list Z) (st : gmap nat (list Z)) (L H : nat).

Lemma list_pair_ind (P : list Z -> Prop) :
  P [] -> (forall a, P [a]) -> (forall a b t, P t -> P (a :: b :: t)) ->
  forall l, P l.
Proof.
  intros Hnil Hone Hstep.
  assert (Hboth : forall l, P l /\ forall a, P (a :: l)).
  { induction l as [|b t [IHt IHat]]; split; auto. }
  intros l. apply Hboth.
Qed.

Lemma omap_cons {A B} (f : A -> option B) (a : A) (l : list A) :
  omap f (a :: l) = match f a with Some y => y :: omap f l | None => omap f l end.
Proof. reflexivity. Qed.

Lemma omap_fmap_compose {A B C} (g : A -> B) (f : B -> option C) (l : list A) :
  omap f (g <$> l) = omap (f ∘ g) l.
Proof.
  induction l as [|a l IH]; [reflexivity|].
  rewrite fmap_cons, !omap_cons, IH. reflexivity.
Qed.

Lemma half_up_SS (n : nat) : ((S (S n) + 1) / 2 = S ((n + 1) / 2))%nat.
Proof.
  replace (S (S n) + 1)%nat with ((n + 1) + 1 * 2)%nat by lia.
  rewrite Nat.div_add by lia. lia.
Qed.

Lemma next_level_pair_up lvl : next_level lvl = pair_up lvl.
Proof.
  induction lvl as [|a|a b t IH] using list_pair_ind; [reflexivity..|].
  unfold next_level in *. simpl length. rewrite half_up_SS.
  rewrite <- cons_seq, omap_cons. simpl lookup. cbn [pair_up]. f_equal.
  rewrite <- fmap_S_seq, omap_fmap_compose, <- IH.
  apply list_omap_ext, Forall2_same_length_lookup_2; [done|].
  intros i j j' Hj Hj'. assert (j' = j) as -> by congruence. clear.
  unfold compose. change (2 * j)%nat with (j + (j + 0))%nat.
  replace (S j + (S j + 0))%nat with (S (S (j + (j + 0)))) by lia.
  replace (S (S (j + (j + 0))) + 1)%nat with (S (S (j + (j + 0) + 1))) by lia.
  reflexivity.
Qed.

Lemma pair_up_length lvl : length (pair_up lvl) = ((length lvl + 1) / 2)%nat.
Proof.
  induction lvl as [|a|a b t IH] using list_pair_ind; [reflexivity..|].
  simpl length. rewrite half_up_SS. cbn [pair_up length]. lia.
Qed.

Lemma pair_up_lookup lvl (j : nat) a :
  lvl !! (2 * j)%nat = Some a ->
  pair_up lvl !! j = Some (match lvl !! (2 * j + 1)%nat with
                           | Some b => a * b
                           | None => a
                           end).
Proof.
  revert j. induction lvl as [|c|c d t IH] using list_pair_ind; intros j.
  - intros [=].
  - destruct j as [|j]; [intros [= ->]; reflexivity|].
    replace (2 * S j)%nat with (S (S (2 * j))) by lia. intros [=].
  - destruct j as [|j]; [intros [= ->]; reflexivity|].
    replace (2 * S j)%nat with (S (S (2 * j))) by lia.
    replace (S (S (2 * j)) + 1)%nat with (S (S (2 * j + 1))) by lia.
    cbn [pair_up lookup list_lookup]. apply IH.
Qed.

Lemma pair_up_product lvl : product (pair_up lvl) = product lvl.
Proof.
  induction lvl as [|a|a b t IH] using list_pair_ind; [reflexivity..|].
  unfold product in *. cbn [pair_up foldr]. rewrite IH. ring.
Qed.

(** The indexed descent step and the one written by recursion agree on
    every pair of lists. *)
Lemma descend_from (k : nat) rem lvl :
  omap (fun '(j, v) => (fun p => p mod (v * v)) <$> rem !! (j / 2)%nat)
       (imap (fun i v => ((2 * k + i)%nat, v)) lvl)
  = reduce_children (drop k rem) lvl.
Proof.
  revert k. induction lvl as [|a|a b t IH] using list_pair_ind; intros k.
  - by destruct (drop k rem).
  - assert (E1 : rem !! k = drop k rem !! 0%nat)
      by (rewrite lookup_drop; f_equal; lia).
    cbn [imap]. rewrite omap_cons. cbn [omap list_omap].
    replace ((2 * k + 0) / 2)%nat with k
      by (rewrite Nat.add_0_r, Nat.mul_comm, Nat.div_mul; lia).
    rewrite E1. by destruct (drop k rem).
  - assert (E1 : rem !! k = drop k rem !! 0%nat)
      by (rewrite lookup_drop; f_equal; lia).
    assert (E2 : drop (S k) rem = drop 1 (drop k rem))
      by (rewrite drop_drop; f_equal; lia).
    rewrite !imap_cons, !omap_cons. unfold compose.
    replace ((2 * k + 0) / 2)%nat with k
      by (rewrite Nat.add_0_r, Nat.mul_comm, Nat.div_mul; lia).
    replace ((2 * k + 1) / 2)%nat with k
      by (rewrite Nat.add_comm, Nat.mul_comm, Nat.div_add; simpl; lia).
    rewrite (imap_ext _ (fun i v => ((2 * S k + i)%nat, v)) t)
      by (intros; f_equal; lia).
    rewrite IH, E1, E2.
    destruct (drop k rem) as [|p rest]; [by destruct t|].
    reflexivity.
Qed.

Lemma descend_reduce_children rem lvl : descend rem lvl = reduce_children rem lvl.
Proof. apply (descend_from 0). Qed.

(** Reducing twice, first modulo the square of a parent and then modulo the
    square of one of its children, is reducing modulo the child's square. *)
Lemma mod_square_child (W a b : Z) :
  (W mod (a * b * (a * b))) mod (a * a) = W mod (a * a).
Proof. apply Z.mod_mod_divide. exists (b * b). ring. Qed.

Lemma reduce_children_pair_up (W : Z) lvl :
  reduce_children ((fun v => W mod (v * v)) <$> pair_up lvl) lvl
  = (fun v => W mod (v * v)) <$> lvl.
Proof.
  induction lvl as [|a|a b t IH] using list_pair_ind.
  - reflexivity.
  - cbn. by rewrite Z.mod_mod_divide by reflexivity.
  - cbn [pair_up fmap list_fmap reduce_children].
    rewrite mod_square_child.
    replace (a * b * (a * b)) with (b * a * (b * a)) by ring.
    rewrite mod_square_child.
    do 2 f_equal. by apply IH.
Qed.

Lemma read_level_Some (k : nat) st lvl :
  st !! k = Some lvl -> read_level_from_file k st = Ok lvl.
Proof. unfold read_level_from_file. by intros ->. Qed.

(** What the builder does from a level in hand: it stops at some height [H]
    at or above [L], leaves the levels up to [L] as they were, stores the
    product of the level as the single entry of level [H], and makes every
    level in between the derivation of the one below. *)
Lemma build_spec (n : nat) : forall lvl L st,
  (length lvl <= n)%nat -> lvl <> [] -> st !! L = Some lvl ->
  exists H st',
    build L lvl st = (H, st')
    /\ (L <= H)%nat
    /\ (L = H <-> length lvl = 1%nat)
    /\ (forall k, (k <= L)%nat -> st' !! k = st !! k)
    /\ st' !! H = Some [product lvl]
    /\ (forall k, (L <= k < H)%nat ->
          exists l, st' !! k = Some l /\ (2 <= length l)%nat
                    /\ st' !! S k = Some (next_level l))
    /\ ((2 <= length lvl)%nat -> forall W,
          propagate H [W] st'
          = propagate L ((fun v => W mod (v * v)) <$> lvl) st').
Proof.
  induction n as [|n IH]; intros lvl L st Hlen Hne HL.
  { destruct lvl; [done | simpl in Hlen; lia]. }
  destruct lvl as [|a [|b t]]; [done | |].
  - exists L, st. simp build. unfold product. cbn [foldr].
    rewrite Z.mul_1_r. repeat split; try done; try lia.
    cbn [length]. lia.
  - set (lvl := a :: b :: t) in *.
    assert (Hnxt : next_level lvl = pair_up lvl) by apply next_level_pair_up.
    destruct (IH (next_level lvl) (S L) (persistLevel (S L) (next_level lvl) st))
      as (H & st' & Hb & HLH & Hone & Hframe & Hroot & Hlev & Hprop).
    + rewrite Hnxt, pair_up_length. subst lvl. cbn [length] in *.
      apply Nat.lt_succ_r, Nat.Div0.div_lt_upper_bound. lia.
    + rewrite Hnxt. done.
    + apply lookup_insert_eq.
    + assert (HstL : st' !! L = Some lvl).
      { rewrite Hframe by lia. unfold persistLevel.
        rewrite lookup_insert_ne by lia. done. }
      exists H, st'. subst lvl. simp build. split; [done|].
      split; [lia|]. split; [cbn [length]; lia|]. split.
      { intros k Hk. rewrite Hframe by lia. unfold persistLevel.
        rewrite lookup_insert_ne by lia. done. }
      split; [by rewrite Hroot, Hnxt, pair_up_product|]. split.
      { intros k Hk. destruct (decide (k = L)) as [->|Hne'].
        - exists (a :: b :: t). split; [done|]. split; [cbn [length]; lia|].
          rewrite Hframe by lia. apply lookup_insert_eq.
        - apply Hlev. lia. }
      intros _ W.
      destruct (decide (length (next_level (a :: b :: t)) = 1%nat)) as [H1|H1].
      * apply Hone in H1. subst H. cbn [propagate].
        rewrite (read_level_Some _ _ _ HstL). cbn [mbind result_bind].
        rewrite descend_reduce_children.
        rewrite Hnxt, pair_up_length in Hone.
        destruct t as [|c t']; [reflexivity|].
        exfalso. cbn [length] in Hone.
        assert (Hge : (2 <= (S (S (S (length t'))) + 1) / 2)%nat)
          by (apply Nat.div_le_lower_bound; lia).
        assert (S L = S L) as E by done. apply Hone in E. lia.
      * rewrite Hprop; cycle 1.
        { rewrite Hnxt in *. destruct t as [|c t']; [done|].
          destruct t'; cbn [pair_up length]; lia. }
        cbn [propagate]. rewrite (read_level_Some _ _ _ HstL).
        cbn [mbind result_bind].
        rewrite descend_reduce_children, Hnxt.
        by rewrite reduce_children_pair_up.
Qed.

(** The builder followed by the propagator, on a non-empty input. *)
Lemma tree_passes X st :
  X <> [] ->
  exists H st',
    product_tree X st = Ok (H, st')
    /\ (H = 0%nat <-> length X = 1%nat)
    /\ st' !! 0%nat = Some X
    /\ st' !! H = Some [product X]
    /\ (forall k, (k < H)%nat ->
          exists l, st' !! k = Some l /\ (2 <= length l)%nat
                    /\ st' !! S k = Some (next_level l))
    /\ remainders_squares H st'
       = Ok (if decide (length X = 1%nat) then X
             else (fun v => product X mod (v * v)) <$> X).
Proof.
  intros Hne.
  destruct (build_spec (length X) X 0 (persistLevel 0 X st))
    as (H & st' & Hb & _ & Hone & Hframe & Hroot & Hlev & Hprop);
    [lia | done | apply lookup_insert_eq |].
  assert (H0 : st' !! 0%nat = Some X)
    by (rewrite Hframe by lia; apply lookup_insert_eq).
  exists H, st'. split; [destruct X; [done | by rewrite <- Hb]|].
  split; [split; intros; [apply Hone | symmetry; apply Hone]; done|].
  split; [done|]. split; [done|].
  split; [intros k Hk; apply Hlev; lia|].
  unfold remainders_squares. rewrite (read_level_Some _ _ _ Hroot).
  cbn [mbind result_bind]. case_decide as H1.
  - assert (H = 0%nat) as -> by (symmetry; by apply Hone).
    cbn [propagate]. destruct X as [|x [|? ?]]; try done.
    unfold product. cbn [foldr]. by rewrite Z.mul_1_r.
  - rewrite Hprop by (destruct X as [|? [|? ?]]; cbn [length] in *; try done; lia).
    reflexivity.
Qed.

(** Five leaves: the unpaired entry 11 is carried up two levels, and its
    remainder comes down unchanged. *)
Example five_leaves_levels :
  ('(H, st) ← product_tree [2; 3; 5; 7; 11] ∅;
   l1 ← read_level_from_file 1 st;
   l2 ← read_level_from_file 2 st;
   l3 ← read_level_from_file 3 st;
   Ok (H, l1, l2, l3))
  = Ok (3%nat, [6; 35; 11], [210; 11], [2310]).
Proof. reflexivity. Qed.

Example five_leaves_remainders :
  ('(H, st) ← product_tree [2; 3; 5; 7; 11] ∅; remainders_squares H st)
  = Ok [2; 6; 10; 7; 11].
Proof. reflexivity. Qed.

Example no_leaves : product_tree [] ∅ = Err EmptyInputError.
Proof. reflexivity. Qed.

End TreeFacts.

(** ** The loops of [main] *)

Section LoopFacts.

Import Main.

Implicit Types (X R D : list Z) (IDs : list string) (i k m : nat).

(** A counted loop whose body takes each state of a known sequence to the
    next one ends in the last state of the sequence. *)
Lemma for_each_states {St : Type} (body : nat -> St -> result St)
    (state : nat -> St) m : forall k,
  (forall i, (k <= i < k + m)%nat -> body i (state i) = Ok (state (S i))) ->
  for_each body (seq k m) (state k) = Ok (state (k + m)%nat).
Proof.
  induction m as [|m IH]; intros k Hbody.
  - by rewrite Nat.add_0_r.
  - cbn [seq for_each]. rewrite Hbody by lia. cbn [mbind result_bind].
    rewrite (IH (S k)).
    + by replace (S k + m)%nat with (k + S m)%nat by lia.
    + intros i Hi. apply Hbody. lia.
Qed.

Lemma at_index_Some {A} (v : list A) i a : v !! i = Some a -> at_index v i = Ok a.
Proof. unfold at_index. by intros ->. Qed.

(** The vector [R] after [i] rounds of Part C. *)
Lemma gcd_step_state X R i x r :
  X !! i = Some x -> R !! i = Some r -> x <> 0 ->
  gcd_step X i (zip_with leaf_gcd (take i X) (take i R) ++ drop i R)
  = Ok (zip_with leaf_gcd (take (S i) X) (take (S i) R) ++ drop (S i) R).
Proof.
  intros HX HR Hx.
  pose proof (lookup_lt_Some _ _ _ HX) as HiX.
  pose proof (lookup_lt_Some _ _ _ HR) as HiR.
  assert (Hpre : length (zip_with leaf_gcd (take i X) (take i R)) = i)
    by (rewrite length_zip_with, !length_take; lia).
  rewrite (take_S_r _ _ _ HX), (take_S_r _ _ _ HR).
  rewrite zip_with_app by (rewrite !length_take; lia).
  rewrite (drop_S _ _ _ HR).
  set (pre := zip_with leaf_gcd (take i X) (take i R)) in *.
  unfold gcd_step.
  rewrite (at_index_Some (pre ++ r :: drop (S i) R) i r)
    by (rewrite lookup_app_r by lia; by rewrite Hpre, Nat.sub_diag).
  rewrite (at_index_Some _ _ _ HX). cbn [mbind result_bind].
  destruct (Z.eqb_spec x 0) as [|_]; [done|].
  rewrite insert_app_r_alt by lia. rewrite Hpre, Nat.sub_diag.
  cbn [insert list_insert].
  rewrite (at_index_Some (pre ++ r ÷ x :: drop (S i) R) i (r ÷ x))
    by (rewrite lookup_app_r by lia; by rewrite Hpre, Nat.sub_diag).
  cbn [mbind result_bind].
  rewrite insert_app_r_alt by lia. rewrite Hpre, Nat.sub_diag.
  cbn [insert list_insert zip_with]. by rewrite <- app_assoc.
Qed.

Lemma final_gcds_leaf_gcds X R :
  Z.of_nat (length X) < 2 ^ 32 -> (length X <= length R)%nat ->
  Forall (fun x => x <> 0) X ->
  final_gcds X R = Ok (leaf_gcds X R).
Proof.
  intros Hsize Hlen Hnz. unfold final_gcds.
  destruct (Z.leb_spec (2 ^ 32) (Z.of_nat (length X))) as [|_]; [lia|].
  pose proof (for_each_states (gcd_step X)
    (fun i => zip_with leaf_gcd (take i X) (take i R) ++ drop i R)
    (length X) 0%nat) as Hloop.
  cbn beta in Hloop. rewrite take_0, drop_0 in Hloop. cbn [zip_with app] in Hloop.
  rewrite Hloop.
  - cbn [Nat.add]. unfold leaf_gcds. rewrite firstn_all.
    by rewrite zip_with_take_r by lia.
  - intros i Hi.
    destruct (lookup_lt_is_Some_2 X i) as [x HX]; [lia|].
    destruct (lookup_lt_is_Some_2 R i) as [r HR]; [lia|].
    apply (gcd_step_state X R i x r HX HR).
    rewrite Forall_lookup in Hnz. by apply (Hnz i).
Qed.

Lemma leaf_gcds_length X R :
  (length X <= length R)%nat -> length (leaf_gcds X R) = length R.
Proof.
  intros Hlen. unfold leaf_gcds.
  rewrite length_app, length_zip_with, length_drop. lia.
Qed.

Lemma leaf_gcds_lookup X R i x r :
  X !! i = Some x -> R !! i = Some r ->
  leaf_gcds X R !! i = Some (leaf_gcd x r).
Proof.
  intros HX HR. unfold leaf_gcds.
  rewrite lookup_app_l
    by (rewrite length_zip_with; apply lookup_lt_Some in HX, HR; lia).
  by rewrite lookup_zip_with, HX, HR.
Qed.

Lemma classify_leaf_gcds X : forall R,
  (length X <= length R)%nat ->
  zip_with classify X (leaf_gcds X R)
  = zip_with (fun x r => classify x (leaf_gcd x r)) X R.
Proof.
  unfold leaf_gcds.
  induction X as [|x X IH]; intros R Hlen; [reflexivity|].
  destruct R as [|r R]; [simpl in Hlen; lia|].
  cbn [zip_with length drop app]. f_equal. apply IH. simpl in Hlen. lia.
Qed.

Lemma int_of_size_small (n : nat) :
  Z.of_nat n < 2 ^ 31 -> Z.to_nat (int_of_size n) = n.
Proof.
  intros Hn. unfold int_of_size.
  rewrite Z.mod_small by lia. lia.
Qed.

Lemma report_of_snoc (l : list (string * verdict)) id v :
  report_of (l ++ [(id, v)]) = record id v (report_of l).
Proof. unfold report_of. by rewrite foldl_app. Qed.

(** The report after [i] rounds of the check. *)
Lemma verify_step_state IDs X D i x d id :
  X !! i = Some x -> D !! i = Some d -> IDs !! i = Some id ->
  verify_step IDs X D i (report_of (take i (zip IDs (zip_with classify X D))))
  = Ok (report_of (take (S i) (zip IDs (zip_with classify X D)))).
Proof.
  intros HX HD HI.
  assert (Hi : zip IDs (zip_with classify X D) !! i = Some (id, classify x d))
    by (by rewrite !lookup_zip_with, HI, HX, HD).
  rewrite (take_S_r _ _ _ Hi), report_of_snoc.
  unfold verify_step, classify.
  rewrite (at_index_Some _ _ _ HD), (at_index_Some _ _ _ HX),
    (at_index_Some _ _ _ HI).
  cbn [mbind result_bind].
  destruct (negb (d =? 1)); [|reflexivity].
  destruct ((d =? 0) || negb (x `rem` d =? 0)); [reflexivity|].
  by destruct (d =? x).
Qed.

Lemma verify_report_of IDs X D :
  Z.of_nat (length X) < 2 ^ 31 ->
  (length X <= length D)%nat -> (length X <= length IDs)%nat ->
  verify IDs X D = Ok (report_of (zip IDs (zip_with classify X D))).
Proof.
  intros Hsize HD HI. unfold verify. rewrite int_of_size_small by done.
  pose proof (for_each_states (verify_step IDs X D)
    (fun i => report_of (take i (zip IDs (zip_with classify X D))))
    (length X) 0%nat) as Hloop.
  cbn beta in Hloop. rewrite take_0 in Hloop.
  change (report_of []) with no_findings in Hloop. rewrite Hloop.
  - cbn [Nat.add]. by rewrite take_ge by (rewrite !length_zip_with; lia).
  - intros i Hi.
    destruct (lookup_lt_is_Some_2 X i) as [x HX]; [lia|].
    destruct (lookup_lt_is_Some_2 D i) as [d HD']; [lia|].
    destruct (lookup_lt_is_Some_2 IDs i) as [id HI']; [lia|].
    by apply (verify_step_state IDs X D i x d id).
Qed.

(** Part C and the check together: the branches taken are those of
    [classify] on each modulus and the gcd computed for it. *)
Lemma finalize_report IDs X R :
  Z.of_nat (length X) < 2 ^ 31 ->
  (length X <= length R)%nat -> (length X <= length IDs)%nat ->
  Forall (fun x => x <> 0) X ->
  finalize IDs X R
  = Ok (report_of
          (zip IDs (zip_with (fun x r => classify x (leaf_gcd x r)) X R))).
Proof.
  intros Hsize HR HI Hnz. unfold finalize.
  rewrite final_gcds_leaf_gcds by (done || lia). cbn [mbind result_bind].
  rewrite verify_report_of by (rewrite ?leaf_gcds_length; done).
  by rewrite classify_leaf_gcds.
Qed.

(** *** The gcd of Part C and the branch it selects *)

Lemma leaf_gcd_divides (x r : Z) : (leaf_gcd x r | x).
Proof. apply Z.gcd_divide_r. Qed.

Lemma leaf_gcd_ge_1 (x r : Z) : x <> 0 -> 1 <= leaf_gcd x r.
Proof.
  intros Hx. unfold leaf_gcd.
  pose proof (Z.gcd_nonneg (r ÷ x) x) as Hge.
  assert (Z.gcd (r ÷ x) x <> 0) by (intros H0; apply Z.gcd_eq_0_r in H0; done).
  lia.
Qed.

(** On a positive divisor of the modulus the sanity condition of line 139
    is false, and the branch is decided by the two equality tests. *)
Lemma classify_divisor (x d : Z) :
  1 <= d -> (d | x) ->
  ((d =? 0) || negb (x `rem` d =? 0) = false)
  /\ classify x d = if d =? 1 then Clean
                    else if d =? x then Duplicate
                    else Compromised d (x ÷ d).
Proof.
  intros Hd Hdiv.
  assert (Hrem : x `rem` d = 0) by (apply Z.rem_divide; [lia | done]).
  assert (Hcond : (d =? 0) || negb (x `rem` d =? 0) = false).
  { rewrite Hrem. destruct (Z.eqb_spec d 0); [lia | reflexivity]. }
  split; [done|]. unfold classify. rewrite Hcond.
  by destruct (d =? 1).
Qed.

Lemma classify_leaf_gcd (x r : Z) :
  x <> 0 ->
  classify x (leaf_gcd x r)
  = if leaf_gcd x r =? 1 then Clean
    else if leaf_gcd x r =? x then Duplicate
    else Compromised (leaf_gcd x r) (x ÷ leaf_gcd x r).
Proof.
  intros Hx. apply classify_divisor;
    [by apply leaf_gcd_ge_1 | apply leaf_gcd_divides].
Qed.

Lemma classify_leaf_gcd_not_anomaly (x r : Z) :
  x <> 0 -> classify x (leaf_gcd x r) <> Anomaly.
Proof.
  intros Hx. rewrite classify_leaf_gcd by done.
  destruct (_ =? 1); [done|]. by destruct (_ =? x).
Qed.

Lemma positive_nonzero X :
  Forall (fun x => 0 < x) X -> Forall (fun x => x <> 0) X.
Proof.
  intros Hpos. eapply Forall_impl; [exact Hpos|].
  intros x Hx. cbn beta in *. lia.
Qed.

(** *** What a report holds *)

Lemma false_positives_report_of (l : list (string * verdict)) :
  false_positives (report_of l)
  = Z.of_nat (length (filter (fun b => b.2 = Anomaly) l)).
Proof.
  induction l as [|[id v] l IH] using rev_ind; [reflexivity|].
  rewrite report_of_snoc, filter_app, length_app, filter_cons, filter_nil.
  destruct v; cbn [record false_positives snd];
    (case_decide; [try done | try done]); cbn [length]; lia.
Qed.

Lemma duplicates_report_of (l : list (string * verdict)) :
  duplicates (report_of l) = (filter (fun b => b.2 = Duplicate) l).*1.
Proof.
  induction l as [|[id v] l IH] using rev_ind; [reflexivity|].
  rewrite report_of_snoc, filter_app, fmap_app, filter_cons, filter_nil.
  destruct v; cbn [record duplicates snd];
    (case_decide; [try done | try done]); rewrite IH;
    cbn [fmap list_fmap fst]; by rewrite ?app_nil_r.
Qed.

Lemma compromised_report_of (l : list (string * verdict)) :
  compromised (report_of l)
  = omap (fun '(id, v) => match v with
                          | Compromised p q => Some (compromised_line id p q)
                          | _ => None
                          end) l.
Proof.
  induction l as [|[id v] l IH] using rev_ind; [reflexivity|].
  rewrite report_of_snoc, omap_app. cbn [omap list_omap].
  destruct v; cbn [record compromised]; rewrite IH; by rewrite ?app_nil_r.
Qed.

Lemma false_positives_none (l : list (string * verdict)) :
  Forall (fun b => b.2 <> Anomaly) l -> false_positives (report_of l) = 0.
Proof.
  induction l as [|[id v] l IH] using rev_ind; [reflexivity|].
  rewrite Forall_app, Forall_singleton. intros [Hl Hv].
  rewrite report_of_snoc. cbn [snd] in Hv.
  destruct v; cbn [record false_positives]; auto. done.
Qed.

(** No leaf with a non-zero modulus takes the false-positive branch. *)
Lemma no_false_positives IDs X R :
  Forall (fun x => x <> 0) X ->
  false_positives
    (report_of (zip IDs (zip_with (fun x r => classify x (leaf_gcd x r)) X R)))
  = 0.
Proof.
  intros Hnz. apply false_positives_none, Forall_forall.
  intros [id v] Hin.
  apply elem_of_zip_r, list_elem_of_lookup in Hin as [i Hi].
  rewrite lookup_zip_with in Hi.
  destruct (X !! i) as [x|] eqn:HXi; [|done].
  destruct (R !! i) as [r|]; [|done]. injection Hi as <-.
  cbn [snd]. apply classify_leaf_gcd_not_anomaly.
  rewrite Forall_lookup in Hnz. by apply (Hnz i).
Qed.

(** With the tree passes done, [main] is Part C and the check on the input
    and its leaf remainders. *)
Lemma main_finalize IDs X st :
  X <> [] ->
  main IDs X st
  = finalize IDs X (if decide (length X = 1%nat) then X
                    else (fun v => Utils.product X mod (v * v)) <$> X).
Proof.
  intros Hne.
  destruct (tree_passes X st Hne) as (H & st' & Hpt & _ & H0 & _ & _ & Hrem).
  unfold main. rewrite Hpt. cbn [mbind result_bind]. rewrite Hrem.
  cbn [mbind result_bind]. by rewrite (read_level_Some _ _ _ H0).
Qed.

End LoopFacts.

(** * The claims *)

Section TreeClaims.

Import Utils.

(** C4. For a leaf sequence of size n >= 1 the builder succeeds and stores a
    tree whose level 0 is the input, whose every level above is derived from
    the one below (⌈n/2⌉ entries, entry j the product of entries 2j and 2j+1,
    an unpaired last entry copied), and whose top level is the single entry
    equal to the exact product of all the leaves. *)
Theorem product_tree_root (X : list Z) (st : gmap nat (list Z)) :
  (1 <= length X)%nat ->
  exists H st',
    product_tree X st = Ok (H, st')
    /\ read_level_from_file 0 st' = Ok X
    /\ (forall L, (L < H)%nat ->
          exists lvl,
            read_level_from_file L st' = Ok lvl
            /\ (2 <= length lvl)%nat
            /\ read_level_from_file (S L) st' = Ok (next_level lvl)
            /\ length (next_level lvl) = ((length lvl + 1) / 2)%nat
            /\ forall (j : nat) a, lvl !! (2 * j)%nat = Some a ->
                 next_level lvl !! j
                 = Some (match lvl !! (2 * j + 1)%nat with
                         | Some b => a * b
                         | None => a
                         end))
    /\ read_level_from_file H st' = Ok [product X].
Proof.
  intros Hn.
  destruct (tree_passes X st) as (H & st' & Hpt & _ & H0 & Hroot & Hlev & _);
    [by destruct X; [simpl in Hn; lia|] |].
  exists H, st'. split; [done|]. split; [by apply read_level_Some|].
  split; [|by apply read_level_Some].
  intros L HL. destruct (Hlev L HL) as (lvl & Hl & Hlen & Hnext).
  exists lvl. split; [by apply read_level_Some|]. split; [done|].
  split; [by apply read_level_Some|]. rewrite next_level_pair_up.
  split; [apply pair_up_length | apply pair_up_lookup].
Qed.

Lemma product_tree_root_witness :
  exists H st',
    product_tree [2; 3; 5] ∅ = Ok (H, st')
    /\ read_level_from_file 0 st' = Ok [2; 3; 5]
    /\ (forall L, (L < H)%nat ->
          exists lvl,
            read_level_from_file L st' = Ok lvl
            /\ (2 <= length lvl)%nat
            /\ read_level_from_file (S L) st' = Ok (next_level lvl)
            /\ length (next_level lvl) = ((length lvl + 1) / 2)%nat
            /\ forall (j : nat) a, lvl !! (2 * j)%nat = Some a ->
                 next_level lvl !! j
                 = Some (match lvl !! (2 * j + 1)%nat with
                         | Some b => a * b
                         | None => a
                         end))
    /\ read_level_from_file H st' = Ok [product [2; 3; 5]].
Proof. apply (product_tree_root [2; 3; 5] ∅). simpl. lia. Defined.




End TreeClaims.

Section DriverClaims.

Import Utils Main.

(** C1. On moduli none of which is zero (one remainder and one identifier
    per leaf, fewer than 2^31 leaves) Part C and the check complete; for
    every leaf i with X_i > 0 the value left in R[i] is D_i = gcd(Q_i, X_i)
    with Q_i = R_i / X_i, and the branch taken is clean when D_i = 1,
    otherwise duplicate when D_i = X_i, otherwise compromised with
    factor_p = D_i and factor_q = X_i / D_i.  The report is the one of these
    branches. *)
Theorem finalizer_classifies (IDs : list string) (X R : list Z) :
  Z.of_nat (length X) < 2 ^ 31 ->
  (length X <= length R)%nat -> (length X <= length IDs)%nat ->
  Forall (fun x => x <> 0) X ->
  exists D,
    final_gcds X R = Ok D
    /\ finalize IDs X R = Ok (report_of (zip IDs (zip_with classify X D)))
    /\ forall (i : nat) x r, X !! i = Some x -> R !! i = Some r -> 0 < x ->
         let Q := r ÷ x in
         let Di := Z.gcd Q x in
         D !! i = Some Di
         /\ classify x Di = if Di =? 1 then Clean
                            else if Di =? x then Duplicate
                            else Compromised Di (x ÷ Di).
Proof.
  intros Hsize HR HI Hnz. exists (leaf_gcds X R).
  split; [apply final_gcds_leaf_gcds; (done || lia)|].
  split; [by rewrite finalize_report, classify_leaf_gcds|].
  intros i x r HXi HRi Hx. cbn zeta. split.
  - apply (leaf_gcds_lookup X R i x r HXi HRi).
  - apply (classify_leaf_gcd x r). lia.
Qed.

Lemma finalizer_classifies_witness :
  exists D,
    final_gcds [15; 35; 91] [90; 35; 0] = Ok D
    /\ finalize ["a"; "b"; "c"] [15; 35; 91] [90; 35; 0]
       = Ok (report_of (zip ["a"; "b"; "c"] (zip_with classify [15; 35; 91] D)))
    /\ forall (i : nat) x r,
         [15; 35; 91] !! i = Some x -> [90; 35; 0] !! i = Some r -> 0 < x ->
         let Q := r ÷ x in
         let Di := Z.gcd Q x in
         D !! i = Some Di
         /\ classify x Di = if Di =? 1 then Clean
                            else if Di =? x then Duplicate
                            else Compromised Di (x ÷ Di).
Proof.
  apply (finalizer_classifies ["a"; "b"; "c"] [15; 35; 91] [90; 35; 0]);
    [reflexivity | simpl; lia | simpl; lia | repeat constructor; lia].
Defined.




(** C5. On the input {15, 21} the tree has height 1 and root 315, the leaf
    remainders are 90 and 315, both gcds are 3, and the run reports leaf 0
    as compromised with factors 3 and 5 and leaf 1 as compromised with
    factors 3 and 7. *)
Theorem scenario_shared_factor (id0 id1 : string) (st : gmap nat (list Z)) :
  (exists st', product_tree [15; 21] st = Ok (1%nat, st')
               /\ read_level_from_file 1 st' = Ok [315]
               /\ remainders_squares 1 st' = Ok [90; 315])
  /\ final_gcds [15; 21] [90; 315] = Ok [3; 3]
  /\ classify 15 3 = Compromised 3 5
  /\ classify 21 3 = Compromised 3 7
  /\ main [id0; id1] [15; 21] st
     = Ok {| compromised := [compromised_line id0 3 5; compromised_line id1 3 7];
             duplicates := [];
             false_positives := 0 |}.
Proof.
  split.
  { destruct (tree_passes [15; 21] st) as (H & st' & Hpt & _ & _ & Hr & Hlev & Hrem);
      [done|].
    assert (H = 1%nat) as ->.
    { unfold product_tree in Hpt. simp build in Hpt.
      change (next_level [15; 21]) with [315] in Hpt. simp build in Hpt.
      by injection Hpt as <- _. }
    exists st'. split; [done|]. split; [by apply read_level_Some | done]. }
  split; [reflexivity|]. split; [reflexivity|]. split; [reflexivity|].
  by rewrite main_finalize.
Qed.

(** C6. On the input {91, 91} both leaf remainders are 0, both gcds are 91,
    and the run reports both leaves as duplicates. *)
Theorem scenario_duplicates (id0 id1 : string) (st : gmap nat (list Z)) :
  (exists H st', product_tree [91; 91] st = Ok (H, st')
                 /\ remainders_squares H st' = Ok [0; 0])
  /\ final_gcds [91; 91] [0; 0] = Ok [91; 91]
  /\ classify 91 91 = Duplicate
  /\ main [id0; id1] [91; 91] st
     = Ok {| compromised := [];
             duplicates := [id0; id1];
             false_positives := 0 |}.
Proof.
  split.
  { destruct (tree_passes [91; 91] st) as (H & st' & Hpt & _ & _ & _ & _ & Hrem);
      [done|].
    by exists H, st'. }
  split; [reflexivity|]. split; [reflexivity|].
  by rewrite main_finalize.
Qed.

(** C7. On a single positive modulus the builder returns height 0, the
    leaf remainder is the modulus itself, its gcd is 1, the leaf takes the
    clean branch, and the run ends without failure and with nothing
    reported. *)
Theorem scenario_single_modulus (IDs : list string) (x : Z)
    (st : gmap nat (list Z)) :
  0 < x ->
  product_tree [x] st = Ok (0%nat, persistLevel 0 [x] st)
  /\ remainders_squares 0 (persistLevel 0 [x] st) = Ok [x]
  /\ final_gcds [x] [x] = Ok [1]
  /\ classify x 1 = Clean
  /\ main IDs [x] st = Ok no_findings.
Proof.
  intros Hx.
  assert (Hg : final_gcds [x] [x] = Ok [1]).
  { rewrite final_gcds_leaf_gcds; [|reflexivity|simpl; lia|].
    - unfold leaf_gcds, leaf_gcd. cbn [zip_with length drop app].
      by rewrite Z.quot_same, Z.gcd_1_l by lia.
    - constructor; [lia | constructor]. }
  split; [unfold product_tree; by simp build|].
  split.
  { unfold remainders_squares, read_level_from_file, persistLevel.
    by rewrite lookup_insert_eq. }
  split; [done|]. split; [reflexivity|].
  rewrite main_finalize by done. unfold finalize. cbn [length decide].
  rewrite decide_True by done. rewrite Hg. reflexivity.
Qed.

Lemma scenario_single_modulus_witness :
  product_tree [91] ∅ = Ok (0%nat, persistLevel 0 [91] ∅)
  /\ remainders_squares 0 (persistLevel 0 [91] ∅) = Ok [91]
  /\ final_gcds [91] [91] = Ok [1]
  /\ classify 91 1 = Clean
  /\ main ["k"] [91] ∅ = Ok no_findings.
Proof. apply (scenario_single_modulus ["k"] 91 ∅). reflexivity. Defined.

(** The check loop alone, on values that Part C cannot leave in [R] (4 does
    not divide 15): the false-positive branch adds 1 to the counter and the
    leaves after it are still examined. *)
Example anomaly_then_findings :
  verify ["a"; "b"; "c"; "d"] [15; 6; 91; 35] [4; 3; 91; 1]
  = Ok {| compromised := ["b,3,2"]; duplicates := ["c"]; false_positives := 1 |}.
Proof. reflexivity. Qed.

(** A zero modulus stops Part C, and a missing remainder is an access past
    the end of [R]. *)
Example zero_modulus_aborts :
  finalize ["a"; "b"] [15; 0] [90; 7] = Err DivisionByZero.
Proof. reflexivity. Qed.

Example short_remainders_out_of_range :
  finalize ["a"; "b"] [15; 21] [90] = Err OutOfRange.
Proof. reflexivity. Qed.

(** C9. The base handed to the parser is 16 when the [base10] option is not
    given and 10 when it is; in terms of the flag, it is 10 exactly when the
    flag is non-zero and 16 otherwise. *)
Theorem base_selection :
  base_of_options false = 16
  /\ base_of_options true = 10
  /\ forall base_10_flag,
       (set_base base_10_flag = 10 <-> base_10_flag <> 0)
       /\ (set_base base_10_flag = 16 <-> base_10_flag = 0).
Proof.
  split; [reflexivity|]. split; [reflexivity|].
  intros flag. unfold set_base.
  destruct (Z.eqb_spec flag 0); cbn [negb]; split; split; (done || lia).
Qed.

(** C10. When all moduli are positive (one remainder and one identifier per
    leaf, fewer than 2^31 leaves) Part C and the check complete; every value
    left in R[i] is at least 1 and divides X[i], so the condition
    [R[i] == 0 || X[i] % R[i] != 0] is false and the false-positive branch
    is not taken at any leaf; the false-positive count of the report is 0. *)
Theorem false_positive_branch_unreachable (IDs : list string) (X R : list Z) :
  Z.of_nat (length X) < 2 ^ 31 ->
  (length X <= length R)%nat -> (length X <= length IDs)%nat ->
  Forall (fun x => 0 < x) X ->
  exists D out,
    final_gcds X R = Ok D
    /\ (forall (i : nat) x d, X !! i = Some x -> D !! i = Some d ->
          1 <= d /\ (d | x)
          /\ (d =? 0) || negb (x `rem` d =? 0) = false
          /\ classify x d <> Anomaly)
    /\ verify IDs X D = Ok out
    /\ finalize IDs X R = Ok out
    /\ false_positives out = 0.
Proof.
  intros Hsize HR HI Hpos.
  pose proof (positive_nonzero X Hpos) as Hnz.
  exists (leaf_gcds X R). eexists.
  split; [apply final_gcds_leaf_gcds; (done || lia)|]. split.
  - intros i x d HXi HDi.
    destruct (lookup_lt_is_Some_2 R i) as [r HRi];
      [apply lookup_lt_Some in HXi; lia|].
    rewrite (leaf_gcds_lookup X R i x r HXi HRi) in HDi. injection HDi as <-.
    assert (Hx : x <> 0) by (rewrite Forall_lookup in Hnz; by apply (Hnz i)).
    pose proof (leaf_gcd_ge_1 x r Hx) as Hge.
    pose proof (leaf_gcd_divides x r) as Hdiv.
    split; [done|]. split; [done|].
    split; [by apply classify_divisor|].
    by apply classify_leaf_gcd_not_anomaly.
  - split.
    { rewrite verify_report_of by (rewrite ?leaf_gcds_length; done).
      by rewrite classify_leaf_gcds. }
    split; [by apply finalize_report|]. by apply no_false_positives.
Qed.

Lemma false_positive_branch_unreachable_witness :
  exists D out,
    final_gcds [15; 21; 11] [46; 315; 7] = Ok D
    /\ (forall (i : nat) x d,
          [15; 21; 11] !! i = Some x -> D !! i = Some d ->
          1 <= d /\ (d | x)
          /\ (d =? 0) || negb (x `rem` d =? 0) = false
          /\ classify x d <> Anomaly)
    /\ verify ["a"; "b"; "c"] [15; 21; 11] D = Ok out
    /\ finalize ["a"; "b"; "c"] [15; 21; 11] [46; 315; 7] = Ok out
    /\ false_positives out = 0.
Proof.
  apply (false_positive_branch_unreachable
           ["a"; "b"; "c"] [15; 21; 11] [46; 315; 7]);
    [reflexivity | simpl; lia | simpl; lia | repeat constructor].
Defined.

End DriverClaims.

(** * Further properties of the driver *)

Section LeafFacts.

Import Main.

Implicit Types (X R D : list Z) (IDs : list string) (i : nat).

(** The branches of a run, by leaf. *)
Lemma branch_elem_of {A} (f : Z -> Z -> A) IDs X R id v :
  (id, v) ∈ zip IDs (zip_with f X R)
  <-> exists i x r, IDs !! i = Some id /\ X !! i = Some x /\ R !! i = Some r
                    /\ v = f x r.
Proof.
  rewrite list_elem_of_lookup. split.
  - intros [i Hi]. rewrite !lookup_zip_with in Hi.
    destruct (IDs !! i) as [id'|] eqn:HI; [|done].
    destruct (X !! i) as [x|] eqn:HX; [|done].
    destruct (R !! i) as [r|] eqn:HR; [|done].
    cbn in Hi. injection Hi as -> <-. by exists i, x, r.
  - intros (i & x & r & HI & HX & HR & ->). exists i.
    by rewrite !lookup_zip_with, HI, HX, HR.
Qed.

Lemma compromised_factors (x r p q : Z) :
  0 < x -> classify x (leaf_gcd x r) = Compromised p q ->
  p = leaf_gcd x r /\ p * q = x /\ 1 < p < x /\ 1 < q < x.
Proof.
  intros Hx. rewrite classify_leaf_gcd by lia.
  pose proof (leaf_gcd_ge_1 x r ltac:(lia)) as Hge.
  destruct (leaf_gcd_divides x r) as [k Hk].
  destruct (Z.eqb_spec (leaf_gcd x r) 1) as [|H1]; [done|].
  destruct (Z.eqb_spec (leaf_gcd x r) x) as [|Hne]; [done|].
  intros [= <- <-]. split; [done|].
  assert (Hq : x ÷ leaf_gcd x r = k).
  { rewrite Hk at 1. apply Z.quot_mul. lia. }
  rewrite Hq. remember (leaf_gcd x r) as d eqn:Hd. clear Hd Hq. subst x.
  assert (0 < k) by nia.
  assert (k <> 1) by (intros ->; lia).
  nia.
Qed.

Lemma duplicate_iff (x r : Z) :
  x <> 0 ->
  classify x (leaf_gcd x r) = Duplicate <-> 1 < x /\ (x | r ÷ x).
Proof.
  intros Hx. rewrite classify_leaf_gcd by done.
  pose proof (leaf_gcd_ge_1 x r Hx) as Hge.
  destruct (Z.eqb_spec (leaf_gcd x r) 1) as [H1|H1].
  { split; [done|]. intros [Hgt Hdiv].
    assert (leaf_gcd x r = x); [|lia].
    unfold leaf_gcd. rewrite Z.gcd_comm. apply Z.divide_gcd_iff; [lia | done]. }
  destruct (Z.eqb_spec (leaf_gcd x r) x) as [He|Hne].
  - split; [|done]. intros _. split; [lia|].
    rewrite <- He at 1. apply Z.gcd_divide_l.
  - split; [done|]. intros [Hgt Hdiv]. exfalso. apply Hne.
    unfold leaf_gcd. rewrite Z.gcd_comm. apply Z.divide_gcd_iff; [lia | done].
Qed.

Lemma negated_duplicate (x r : Z) :
  x < -1 -> (x | r ÷ x) ->
  classify x (leaf_gcd x r) = Compromised (- x) (-1).
Proof.
  intros Hx Hdiv. rewrite classify_leaf_gcd by lia.
  assert (Hg : leaf_gcd x r = - x).
  { unfold leaf_gcd. rewrite <- Z.gcd_opp_r, Z.gcd_comm.
    apply Z.divide_gcd_iff; [lia|]. by apply Z.divide_opp_l. }
  rewrite Hg.
  destruct (Z.eqb_spec (- x) 1); [lia|].
  destruct (Z.eqb_spec (- x) x); [lia|].
  by rewrite Z.quot_opp_r, Z.quot_same by lia.
Qed.

Lemma split_time_in_range (t : Z) :
  - 2 ^ 31 <= t < 2 ^ 31 ->
  split_time t = Some (t ÷ 60 ÷ 60, (t ÷ 60) `rem` 60, t `rem` 60).
Proof.
  intros Ht. unfold split_time, static_cast_int.
  destruct (Z.leb_spec (- 2 ^ 31) t); [|lia].
  destruct (Z.ltb_spec t (2 ^ 31)); [|lia]. reflexivity.
Qed.

Lemma split_time_out_of_range (t : Z) :
  2 ^ 31 <= t -> split_time t = None.
Proof.
  intros Ht. unfold split_time, static_cast_int.
  destruct (Z.ltb_spec t (2 ^ 31)); [lia|]. by rewrite andb_false_r.
Qed.

End LeafFacts.

Section MoreDriverClaims.

Import Main.

(** X1. On positive moduli every line pushed to [compromised] names a leaf
    and two factors p and q of its modulus x with p * q = x, both strictly
    between 1 and x. *)
Theorem compromised_lines_factor (IDs : list string) (X R : list Z) :
  Z.of_nat (length X) < 2 ^ 31 ->
  (length X <= length R)%nat -> (length X <= length IDs)%nat ->
  Forall (fun x => 0 < x) X ->
  exists out,
    finalize IDs X R = Ok out
    /\ forall line, line ∈ compromised out ->
         exists (i : nat) id x p q,
           IDs !! i = Some id /\ X !! i = Some x
           /\ line = compromised_line id p q
           /\ p * q = x /\ 1 < p < x /\ 1 < q < x.
Proof.
  intros Hsize HR HI Hpos.
  pose proof (positive_nonzero X Hpos) as Hnz.
  eexists. split; [by apply finalize_report|].
  intros line. rewrite compromised_report_of, list_elem_of_omap.
  intros ([id v] & Hin & Hline).
  apply branch_elem_of in Hin as (i & x & r & Hid & Hx & Hr & ->).
  destruct (classify x (leaf_gcd x r)) as [| | |p q] eqn:Hc; try done.
  injection Hline as <-.
  assert (Hxpos : 0 < x) by (rewrite Forall_lookup in Hpos; by apply (Hpos i)).
  destruct (compromised_factors x r p q Hxpos Hc) as (_ & Hpq & Hp & Hq).
  by exists i, id, x, p, q.
Qed.

Lemma compromised_lines_factor_witness :
  exists out,
    finalize ["a"; "b"; "c"] [15; 35; 91] [90; 35; 0] = Ok out
    /\ forall line, line ∈ compromised out ->
         exists (i : nat) id x p q,
           ["a"; "b"; "c"] !! i = Some id /\ [15; 35; 91] !! i = Some x
           /\ line = compromised_line id p q
           /\ p * q = x /\ 1 < p < x /\ 1 < q < x.
Proof.
  apply (compromised_lines_factor ["a"; "b"; "c"] [15; 35; 91] [90; 35; 0]);
    [reflexivity | simpl; lia | simpl; lia | repeat constructor].
Defined.

(** X2. When no modulus is zero, an identifier is pushed to [duplicates]
    exactly for the leaves whose modulus x is greater than 1 and divides the
    truncated quotient R_i / x. *)
Theorem duplicates_reported_iff (IDs : list string) (X R : list Z) :
  Z.of_nat (length X) < 2 ^ 31 ->
  (length X <= length R)%nat -> (length X <= length IDs)%nat ->
  Forall (fun x => x <> 0) X ->
  exists out,
    finalize IDs X R = Ok out
    /\ forall id, id ∈ duplicates out <->
         exists (i : nat) x r,
           IDs !! i = Some id /\ X !! i = Some x /\ R !! i = Some r
           /\ 1 < x /\ (x | r ÷ x).
Proof.
  intros Hsize HR HI Hnz.
  eexists. split; [by apply finalize_report|].
  intros id. rewrite duplicates_report_of, list_elem_of_fmap. split.
  - intros ([id' v] & -> & Hin). apply list_elem_of_filter in Hin as [Hv Hin].
    apply branch_elem_of in Hin as (i & x & r & Hid & Hx & Hr & ->).
    cbn [snd fst] in *. exists i, x, r. repeat (split; [done|]).
    apply duplicate_iff; [|done].
    rewrite Forall_lookup in Hnz. by apply (Hnz i).
  - intros (i & x & r & Hid & Hx & Hr & Hgt & Hdiv).
    exists (id, Duplicate). split; [done|].
    apply list_elem_of_filter. split; [done|].
    apply branch_elem_of. exists i, x, r. repeat (split; [done|]).
    symmetry. apply duplicate_iff; [lia | done].
Qed.

Lemma duplicates_reported_iff_witness :
  exists out,
    finalize ["a"; "b"; "c"] [15; -35; 91] [90; 35; 0] = Ok out
    /\ forall id, id ∈ duplicates out <->
         exists (i : nat) x r,
           ["a"; "b"; "c"] !! i = Some id /\ [15; -35; 91] !! i = Some x
           /\ [90; 35; 0] !! i = Some r
           /\ 1 < x /\ (x | r ÷ x).
Proof.
  apply (duplicates_reported_iff ["a"; "b"; "c"] [15; -35; 91] [90; 35; 0]);
    [reflexivity | simpl; lia | simpl; lia | repeat constructor; lia].
Defined.

(** X6. A leaf whose modulus x is below -1 and divides the quotient R_i / x
    is not a duplicate: the gcd is -x, which differs from x, and the leaf is
    pushed to [compromised] with factor_p = -x and factor_q = -1. *)
Theorem negative_modulus_reported_compromised (IDs : list string)
    (X R : list Z) :
  Z.of_nat (length X) < 2 ^ 31 ->
  (length X <= length R)%nat -> (length X <= length IDs)%nat ->
  Forall (fun x => x <> 0) X ->
  exists out,
    finalize IDs X R = Ok out
    /\ forall (i : nat) id x r,
         IDs !! i = Some id -> X !! i = Some x -> R !! i = Some r ->
         x < -1 -> (x | r ÷ x) ->
         classify x (Z.gcd (r ÷ x) x) = Compromised (- x) (-1)
         /\ compromised_line id (- x) (-1) ∈ compromised out.
Proof.
  intros Hsize HR HI Hnz.
  eexists. split; [by apply finalize_report|].
  intros i id x r Hid Hx Hr Hlt Hdiv.
  pose proof (negated_duplicate x r Hlt Hdiv) as Hc. split; [done|].
  rewrite compromised_report_of, list_elem_of_omap.
  exists (id, Compromised (- x) (-1)). split; [|done].
  apply branch_elem_of. by exists i, x, r.
Qed.

Lemma negative_modulus_reported_compromised_witness :
  exists out,
    finalize ["a"; "b"] [-91; 91] [0; 0] = Ok out
    /\ forall (i : nat) id x r,
         ["a"; "b"] !! i = Some id -> [-91; 91] !! i = Some x ->
         [0; 0] !! i = Some r ->
         x < -1 -> (x | r ÷ x) ->
         classify x (Z.gcd (r ÷ x) x) = Compromised (- x) (-1)
         /\ compromised_line id (- x) (-1) ∈ compromised out.
Proof.
  apply (negative_modulus_reported_compromised ["a"; "b"] [-91; 91] [0; 0]);
    [reflexivity | simpl; lia | simpl; lia | repeat constructor; lia].
Defined.

Example negated_duplicate_run :
  finalize ["a"; "b"] [-91; 91] [0; 0]
  = Ok {| compromised := ["a,91,-1"]; duplicates := ["b"];
          false_positives := 0 |}.
Proof. reflexivity. Qed.

(** X7. The elapsed time is split exactly as long as it fits an [int]: for
    a total of t whole seconds with 0 <= t < 2^31 the three numbers printed
    satisfy hours * 3600 + minutes * 60 + seconds = t, with minutes and
    seconds in 0..59 and hours not negative. *)
Theorem split_time_exact (t : Z) :
  0 <= t -> t < 2 ^ 31 ->
  exists totalHour totalMin totalSec,
    split_time t = Some (totalHour, totalMin, totalSec)
    /\ totalHour * 3600 + totalMin * 60 + totalSec = t
    /\ 0 <= totalHour /\ 0 <= totalMin < 60 /\ 0 <= totalSec < 60.
Proof.
  intros Ht Hint. do 3 eexists.
  split; [apply split_time_in_range; lia|].
  pose proof (Z.quot_rem' t 60). pose proof (Z.quot_rem' (t ÷ 60) 60).
  pose proof (Z.rem_bound_pos t 60 Ht ltac:(lia)).
  assert (0 <= t ÷ 60) by (apply Z.quot_pos; lia).
  pose proof (Z.rem_bound_pos (t ÷ 60) 60 ltac:(lia) ltac:(lia)).
  assert (0 <= t ÷ 60 ÷ 60) by (apply Z.quot_pos; lia).
  lia.
Qed.

Lemma split_time_exact_witness :
  exists totalHour totalMin totalSec,
    split_time 3725 = Some (totalHour, totalMin, totalSec)
    /\ totalHour * 3600 + totalMin * 60 + totalSec = 3725
    /\ 0 <= totalHour /\ 0 <= totalMin < 60 /\ 0 <= totalSec < 60.
Proof. apply (split_time_exact 3725); [lia | reflexivity]. Defined.

Example one_hour_two_minutes : split_time 3725 = Some (1, 2, 5).
Proof. reflexivity. Qed.

(** A total that does not fit an [int] has no defined split. *)
Example split_time_past_int : split_time (2 ^ 31) = None.
Proof. reflexivity. Qed.

End MoreDriverClaims.

Section PartCFacts.

Import Main.

Implicit Types (X R D : list Z) (IDs : list string) (i k m : nat).

(** A counted loop that reaches a round whose body fails ends in that
    failure. *)
Lemma for_each_fails {St : Type} (body : nat -> St -> result St)
    (state : nat -> St) (e : failure) i m : forall k,
  (forall j, (k <= j < i)%nat -> body j (state j) = Ok (state (S j))) ->
  (k <= i < k + m)%nat -> body i (state i) = Err e ->
  for_each body (seq k m) (state k) = Err e.
Proof.
  induction m as [|m IH]; intros k Hbody Hi Herr; [lia|].
  cbn [seq for_each]. destruct (decide (k = i)) as [->|Hne].
  - by rewrite Herr.
  - rewrite Hbody by lia. cbn [mbind result_bind].
    apply IH; [intros j Hj; apply Hbody; lia | lia | done].
Qed.

Lemma first_zero X :
  0 ∈ X ->
  exists i, X !! i = Some 0
            /\ forall j x, (j < i)%nat -> X !! j = Some x -> x <> 0.
Proof.
  induction X as [|y X IH]; [by intros ?%elem_of_nil|].
  intros Hin. destruct (decide (y = 0)) as [->|Hy].
  - exists 0%nat. split; [done|]. intros j x Hj. lia.
  - apply elem_of_cons in Hin as [|Hin]; [done|].
    destruct (IH Hin) as (i & Hi & Hbefore). exists (S i). split; [done|].
    intros [|j] x Hj; cbn; [by intros [= <-]|].
    apply Hbefore. lia.
Qed.

Lemma gcd_step_zero X R i r :
  X !! i = Some 0 -> R !! i = Some r ->
  gcd_step X i (zip_with leaf_gcd (take i X) (take i R) ++ drop i R)
  = Err DivisionByZero.
Proof.
  intros HX HR.
  pose proof (lookup_lt_Some _ _ _ HX) as HiX.
  pose proof (lookup_lt_Some _ _ _ HR) as HiR.
  assert (Hpre : length (zip_with leaf_gcd (take i X) (take i R)) = i)
    by (rewrite length_zip_with, !length_take; lia).
  rewrite (drop_S _ _ _ HR).
  set (pre := zip_with leaf_gcd (take i X) (take i R)) in *.
  unfold gcd_step.
  rewrite (at_index_Some (pre ++ r :: drop (S i) R) i r)
    by (rewrite lookup_app_r by lia; by rewrite Hpre, Nat.sub_diag).
  by rewrite (at_index_Some _ _ _ HX).
Qed.

Lemma final_gcds_zero X R :
  Z.of_nat (length X) < 2 ^ 32 -> (length X <= length R)%nat -> 0 ∈ X ->
  final_gcds X R = Err DivisionByZero.
Proof.
  intros Hsize Hlen Hin. unfold final_gcds.
  destruct (Z.leb_spec (2 ^ 32) (Z.of_nat (length X))) as [|_]; [lia|].
  destruct (first_zero X Hin) as (i & Hi & Hbefore).
  pose proof (lookup_lt_Some _ _ _ Hi) as HiX.
  pose proof (for_each_fails (gcd_step X)
    (fun i => zip_with leaf_gcd (take i X) (take i R) ++ drop i R)
    DivisionByZero i (length X) 0%nat) as Hloop.
  cbn beta in Hloop. rewrite take_0, drop_0 in Hloop.
  cbn [zip_with app] in Hloop. apply Hloop; [|lia|].
  - intros j Hj.
    destruct (lookup_lt_is_Some_2 X j) as [x HX]; [lia|].
    destruct (lookup_lt_is_Some_2 R j) as [r HR]; [lia|].
    apply (gcd_step_state X R j x r HX HR). apply (Hbefore j); [lia | done].
  - destruct (lookup_lt_is_Some_2 R i) as [r HR]; [lia|].
    by apply (gcd_step_zero X R i r).
Qed.

Lemma final_gcds_Ok_nonzero X R D :
  Z.of_nat (length X) < 2 ^ 32 -> (length X <= length R)%nat ->
  final_gcds X R = Ok D -> Forall (fun x => x <> 0) X.
Proof.
  intros Hsize Hlen HD. apply Forall_forall. intros x Hx ->.
  by rewrite (final_gcds_zero X R Hsize Hlen Hx) in HD.
Qed.

Lemma classify_leaf_gcd_three (x r : Z) :
  x <> 0 ->
  classify x (leaf_gcd x r) = Clean
  \/ classify x (leaf_gcd x r) = Duplicate
  \/ exists p q, classify x (leaf_gcd x r) = Compromised p q.
Proof.
  intros Hx. rewrite classify_leaf_gcd by done.
  destruct (_ =? 1); [by left|]. destruct (_ =? x); [by right; left|].
  right; right. by do 2 eexists.
Qed.

Lemma classify_clean_iff (x d : Z) : classify x d = Clean <-> d = 1.
Proof.
  unfold classify. destruct (Z.eqb_spec d 1) as [->|Hd]; cbn [negb].
  - done.
  - split; [|done].
    destruct ((d =? 0) || negb (x `rem` d =? 0)); [done|].
    by destruct (d =? x).
Qed.

Lemma clean_count IDs X : forall D,
  (length X <= length IDs)%nat -> (length X <= length D)%nat ->
  length (filter (fun b => b.2 = Clean) (zip IDs (zip_with classify X D)))
  = length (filter (fun d => d = 1) (take (length X) D)).
Proof.
  revert IDs. induction X as [|x X IH]; intros IDs D HI HD.
  - by destruct IDs.
  - destruct IDs as [|id IDs]; [simpl in HI; lia|].
    destruct D as [|d D]; [simpl in HD; lia|].
    cbn [zip_with length take]. rewrite !filter_cons. cbn [snd].
    simpl in HI, HD.
    pose proof (classify_clean_iff x d) as Hiff.
    destruct (decide (classify x d = Clean)) as [Hc|Hc];
      destruct (decide (d = 1)) as [Hd|Hd]; try tauto;
      cbn [length]; rewrite IH by lia; done.
Qed.

Lemma tally_branches (l : list (string * verdict)) :
  Z.of_nat (length (compromised (report_of l)))
  + Z.of_nat (length (duplicates (report_of l)))
  + false_positives (report_of l)
  + Z.of_nat (length (filter (fun b => b.2 = Clean) l))
  = Z.of_nat (length l).
Proof.
  induction l as [|[id v] l IH] using rev_ind; [reflexivity|].
  rewrite report_of_snoc, filter_app, !length_app, filter_cons, filter_nil.
  cbn [snd].
  destruct v; cbn [record compromised duplicates false_positives];
    (case_decide; [try done | try done]); rewrite ?length_app;
    cbn [length]; lia.
Qed.

End PartCFacts.

Section PartCClaims.

Import Main.

(** X3. The four amounts of a run add up: the number of compromised lines,
    the number of duplicates, the false-positive count and the number of
    leaves found with R[i] = 1 sum to the number of moduli. *)
Theorem tallies_add_up (IDs : list string) (X D : list Z) :
  Z.of_nat (length X) < 2 ^ 31 ->
  (length X <= length D)%nat -> (length X <= length IDs)%nat ->
  exists out,
    verify IDs X D = Ok out
    /\ Z.of_nat (length (compromised out))
       + Z.of_nat (length (duplicates out))
       + false_positives out
       + Z.of_nat (length (filter (fun d => d = 1) (take (length X) D)))
       = Z.of_nat (length X).
Proof.
  intros Hsize HD HI. eexists. split; [by apply verify_report_of|].
  rewrite <- (clean_count IDs X D) by done. rewrite tally_branches.
  rewrite !length_zip_with. lia.
Qed.

Lemma tallies_add_up_witness :
  exists out,
    verify ["a"; "b"; "c"; "d"] [15; 6; 91; 35] [4; 3; 91; 1] = Ok out
    /\ Z.of_nat (length (compromised out))
       + Z.of_nat (length (duplicates out))
       + false_positives out
       + Z.of_nat (length (filter (fun d => d = 1)
                                  (take (length [15; 6; 91; 35]) [4; 3; 91; 1])))
       = Z.of_nat (length [15; 6; 91; 35]).
Proof.
  apply (tallies_add_up ["a"; "b"; "c"; "d"] [15; 6; 91; 35] [4; 3; 91; 1]);
    [reflexivity | simpl; lia | simpl; lia].
Defined.

(** X4. A zero among the moduli stops the run in Part C with GMP's division
    by zero, whatever the remainders and the other moduli are; the check is
    not reached and nothing is reported. *)
Theorem zero_modulus_stops_run (IDs : list string) (X R : list Z) :
  Z.of_nat (length X) < 2 ^ 32 -> (length X <= length R)%nat -> 0 ∈ X ->
  final_gcds X R = Err DivisionByZero
  /\ finalize IDs X R = Err DivisionByZero.
Proof.
  intros Hsize Hlen Hin.
  pose proof (final_gcds_zero X R Hsize Hlen Hin) as Hg.
  split; [done|]. unfold finalize. by rewrite Hg.
Qed.

Lemma zero_modulus_stops_run_witness :
  final_gcds [15; 0; 21] [90; 7; 315] = Err DivisionByZero
  /\ finalize ["a"; "b"; "c"] [15; 0; 21] [90; 7; 315] = Err DivisionByZero.
Proof.
  apply (zero_modulus_stops_run ["a"; "b"; "c"] [15; 0; 21] [90; 7; 315]);
    [reflexivity | simpl; lia |].
  apply list_elem_of_lookup. by exists 1%nat.
Defined.

(** X5. Part C completes exactly when no modulus is zero.  When it does,
    [R] keeps its size, entry i below the number of moduli holds
    gcd(R_i / X_i, X_i), and the entries past the moduli are untouched. *)
Theorem part_c_completes_iff (X R : list Z) :
  Z.of_nat (length X) < 2 ^ 32 -> (length X <= length R)%nat ->
  (Forall (fun x => x <> 0) X <-> exists D, final_gcds X R = Ok D)
  /\ forall D, final_gcds X R = Ok D ->
       length D = length R
       /\ drop (length X) D = drop (length X) R
       /\ forall (i : nat) x r, X !! i = Some x -> R !! i = Some r ->
            D !! i = Some (Z.gcd (r ÷ x) x).
Proof.
  intros Hsize Hlen.
  assert (Hnz : forall D, final_gcds X R = Ok D -> Forall (fun x => x <> 0) X).
  { intros D HD. apply Forall_forall. intros x Hx ->.
    by rewrite (final_gcds_zero X R Hsize Hlen Hx) in HD. }
  split.
  - split; [|intros [D HD]; by apply (Hnz D)].
    intros Hall. exists (leaf_gcds X R). by apply final_gcds_leaf_gcds.
  - intros D HD.
    rewrite (final_gcds_leaf_gcds X R Hsize Hlen (Hnz D HD)) in HD.
    injection HD as <-. split; [by apply leaf_gcds_length|]. split.
    + unfold leaf_gcds. rewrite drop_app_length'; [done|].
      rewrite length_zip_with. lia.
    + intros i x r. apply leaf_gcds_lookup.
Qed.

Lemma part_c_completes_iff_witness :
  (Forall (fun x => x <> 0) [15; 21] <->
     exists D, final_gcds [15; 21] [90; 315; 8] = Ok D)
  /\ forall D, final_gcds [15; 21] [90; 315; 8] = Ok D ->
       length D = length [90; 315; 8]
       /\ drop (length [15; 21]) D = drop (length [15; 21]) [90; 315; 8]
       /\ forall (i : nat) x r,
            [15; 21] !! i = Some x -> [90; 315; 8] !! i = Some r ->
            D !! i = Some (Z.gcd (r ÷ x) x).
Proof.
  apply (part_c_completes_iff [15; 21] [90; 315; 8]);
    [reflexivity | simpl; lia].
Defined.

End PartCClaims.

Section FileFacts.

Import Main.

Implicit Types (v w : list string) (X Y : list Z) (fs : gmap string string).

Lemma append_assoc (a b c : string) : (a +:+ b) +:+ c = a +:+ (b +:+ c).
Proof.
  induction a as [|ch a IH]; [done|].
  change (String ch ((a +:+ b) +:+ c) = String ch (a +:+ (b +:+ c))).
  by rewrite IH.
Qed.

Lemma append_empty_r (a : string) : a +:+ "" = a.
Proof.
  induction a as [|ch a IH]; [done|].
  change (String ch (a +:+ "") = String ch a). by rewrite IH.
Qed.

Lemma file_of_lines_snoc v line :
  file_of_lines (v ++ [line]) = file_of_lines v +:+ line +:+ newline.
Proof.
  induction v as [|l v IH]; cbn.
  - by rewrite append_empty_r.
  - fold (file_of_lines (v ++ [line])). fold (file_of_lines v).
    by rewrite IH, !append_assoc.
Qed.


Lemma output_loop_file X :
  for_each (output_line X) (seq 0 (length X)) ""
  = Ok (file_of_lines (get_str16 <$> X)).
Proof.
  pose proof (for_each_states (output_line X)
    (fun i => file_of_lines (get_str16 <$> take i X)) (length X) 0%nat) as Hloop.
  cbn beta in Hloop. rewrite take_0 in Hloop.
  change (file_of_lines (get_str16 <$> [])) with "" in Hloop. rewrite Hloop.
  - cbn [Nat.add]. by rewrite firstn_all.
  - intros i Hi. destruct (lookup_lt_is_Some_2 X i) as [x Hx]; [lia|].
    unfold output_line. rewrite (at_index_Some _ _ _ Hx).
    cbn [mbind result_bind].
    rewrite (take_S_r _ _ _ Hx), fmap_app.
    change (get_str16 <$> [x]) with [get_str16 x].
    by rewrite file_of_lines_snoc.
Qed.

(** Reading a file back: a line without a line break is read whole. *)
Lemma lines_from_line (line rest : string) : forall cur,
  has_newline line = false ->
  lines_from cur (line +:+ newline +:+ rest)
  = (cur +:+ line) :: lines_from "" rest.
Proof.
  induction line as [|ch line IH]; intros cur Hnl.
  - cbn. by rewrite append_empty_r.
  - cbn in Hnl. apply orb_false_iff in Hnl as [Hch Hline].
    change (String ch line +:+ newline +:+ rest)
      with (String ch (line +:+ newline +:+ rest)).
    cbn [lines_from]. rewrite Hch, IH by done.
    by rewrite append_assoc.
Qed.

Lemma lines_from_file v :
  Forall (fun line => has_newline line = false) v ->
  lines_from "" (file_of_lines v) = v.
Proof.
  induction 1 as [|line v Hline _ IH]; [done|].
  cbn [file_of_lines foldr]. fold (file_of_lines v).
  by rewrite lines_from_line, IH.
Qed.

Lemma file_of_lines_inj v w :
  Forall (fun line => has_newline line = false) v ->
  Forall (fun line => has_newline line = false) w ->
  file_of_lines v = file_of_lines w -> v = w.
Proof.
  intros Hv Hw Heq.
  by rewrite <- (lines_from_file v Hv), <- (lines_from_file w Hw), Heq.
Qed.

(** The base-16 digits hold no line break, and the text of a number
    determines the number. *)
Lemma hex_digits_no_newline (d : Hexadecimal.uint) :
  has_newline (HexadecimalString.NilEmpty.string_of_uint d) = false.
Proof. induction d; cbn; done. Qed.

Lemma get_str16_no_newline (x : Z) : has_newline (get_str16 x) = false.
Proof.
  unfold get_str16.
  destruct (Z.to_hex_int x) as [d|d]; cbn;
    destruct d; cbn; try done; apply hex_digits_no_newline.
Qed.

Lemma get_str16_parse (x : Z) :
  Z.of_hex_int <$> HexadecimalString.NilZero.int_of_string (get_str16 x)
  = Some x.
Proof.
  unfold get_str16. rewrite HexadecimalString.NilZero.isi.
  - cbn. by rewrite HexadecimalZ.of_to.
  - destruct x; cbn; try done.
    intros [= H]. by apply HexadecimalPos.Unsigned.to_uint_nonnil in H.
  - destruct x; cbn; try done.
    intros [= H]. by apply HexadecimalPos.Unsigned.to_uint_nonnil in H.
Qed.

Lemma get_str16_inj (x y : Z) : get_str16 x = get_str16 y -> x = y.
Proof.
  intros Heq. pose proof (get_str16_parse x) as Hx.
  rewrite Heq, get_str16_parse in Hx. by injection Hx.
Qed.

End FileFacts.

Section FileClaims.

Import Main.



(** Two compromised lines and one duplicate, over an old compromised.csv. *)
Example report_files_written :
  (fs ← write_reports (Report ["a,3,5"; "b,3,7"] ["c"] 0)
                      {["compromised.csv" := "old"]};
   Ok (fs !! "compromised.csv", fs !! "duplicates.csv"))
  = Ok (Some ("a,3,5" +:+ newline +:+ "b,3,7" +:+ newline),
        Some ("c" +:+ newline)).
Proof. reflexivity. Qed.

(** X9. [output_base16] writes one base-16 line per modulus, and the file
    determines the moduli: every line parses back to its modulus, and two
    vectors that leave the same base16.moduli are equal. *)
Theorem base16_file_determines_moduli (X Y : list Z)
    (fs1 fs2 : gmap string string) :
  Z.of_nat (length X) < 2 ^ 32 -> Z.of_nat (length Y) < 2 ^ 32 ->
  exists f1 f2,
    output_base16 X fs1 = Ok f1
    /\ output_base16 Y fs2 = Ok f2
    /\ f1 !! "base16.moduli" = Some (file_of_lines (get_str16 <$> X))
    /\ (forall x, x ∈ X ->
          Z.of_hex_int
            <$> HexadecimalString.NilZero.int_of_string (get_str16 x)
          = Some x)
    /\ (f1 !! "base16.moduli" = f2 !! "base16.moduli" -> X = Y).
Proof.
  intros HX HY. unfold output_base16.
  destruct (Z.leb_spec (2 ^ 32) (Z.of_nat (length X))) as [|_]; [lia|].
  destruct (Z.leb_spec (2 ^ 32) (Z.of_nat (length Y))) as [|_]; [lia|].
  rewrite !output_loop_file. cbn [mbind result_bind]. do 2 eexists.
  split; [done|]. split; [done|]. rewrite !lookup_insert_eq.
  split; [done|]. split; [intros x _; apply get_str16_parse|].
  intros [= Heq]. apply file_of_lines_inj in Heq.
  - assert (Hinj : Inj (=) (=) get_str16)
      by (intros x y; apply get_str16_inj).
    revert Heq. apply (inj (fmap get_str16)).
  - apply Forall_fmap, Forall_forall. intros x _. apply get_str16_no_newline.
  - apply Forall_fmap, Forall_forall. intros x _. apply get_str16_no_newline.
Qed.

Lemma base16_file_determines_moduli_witness :
  exists f1 f2,
    output_base16 [255; 0; -43981] ∅ = Ok f1
    /\ output_base16 [255; 0] ∅ = Ok f2
    /\ f1 !! "base16.moduli"
       = Some (file_of_lines (get_str16 <$> [255; 0; -43981]))
    /\ (forall x, x ∈ [255; 0; -43981] ->
          Z.of_hex_int
            <$> HexadecimalString.NilZero.int_of_string (get_str16 x)
          = Some x)
    /\ (f1 !! "base16.moduli" = f2 !! "base16.moduli" ->
        [255; 0; -43981] = [255; 0]).
Proof.
  apply (base16_file_determines_moduli [255; 0; -43981] [255; 0] ∅ ∅);
    reflexivity.
Defined.

Example base16_lines :
  get_str16 <$> [255; 0; -43981; 4096] = ["ff"; "0"; "-abcd"; "1000"].
Proof. reflexivity. Qed.

End FileClaims.

Section CheckFacts.

Import Main.

Implicit Types (X D : list Z) (IDs : list string).

(** The condition of line 139, read as divisibility: a value is flagged
    when it is zero or does not divide the modulus; the value 1, which the
    loop skips, divides every modulus. *)
Lemma classify_anomaly_iff (x d : Z) :
  classify x d = Anomaly <-> d = 0 \/ ~ (d | x).
Proof.
  unfold classify. destruct (Z.eqb_spec d 1) as [->|H1]; cbn [negb].
  { split; [done|]. intros [|Hn]; [done|]. destruct Hn. apply Z.divide_1_l. }
  destruct (Z.eqb_spec d 0) as [->|H0]; cbn [orb]; [by split; [left|]|].
  pose proof (Z.rem_divide x d H0) as Hrem.
  destruct (Z.eqb_spec (x `rem` d) 0) as [Hr|Hr]; cbn [negb].
  - split; [by destruct (d =? x)|]. intros [|Hn]; [done|].
    destruct Hn. by apply Hrem.
  - split; [|done]. intros _. right. intros Hdiv. by apply Hr, Hrem.
Qed.

Lemma anomaly_count IDs X : forall D,
  (length X <= length IDs)%nat ->
  length (filter (fun b => b.2 = Anomaly) (zip IDs (zip_with classify X D)))
  = length (filter (fun p => p.2 = 0 \/ ~ (p.2 | p.1)) (zip X D)).
Proof.
  revert IDs. induction X as [|x X IH]; intros IDs D HI.
  - by destruct IDs.
  - destruct IDs as [|id IDs]; [simpl in HI; lia|].
    destruct D as [|d D]; [done|].
    cbn [zip_with]. rewrite !filter_cons. cbn [snd fst]. simpl in HI.
    pose proof (classify_anomaly_iff x d) as Hiff.
    destruct (decide (classify x d = Anomaly)) as [Hc|Hc];
      destruct (decide (d = 0 \/ ~ (d | x))) as [Hd|Hd]; try tauto;
      cbn [length]; rewrite IH by lia; done.
Qed.

End CheckFacts.

Section CheckClaims.

Import Main.

(** X10. Whatever values the check finds in [R], the false-positive count
    it reports is the number of leaves whose value is zero or does not
    divide the modulus. *)
Theorem false_positives_are_non_divisors (IDs : list string) (X D : list Z) :
  Z.of_nat (length X) < 2 ^ 31 ->
  (length X <= length D)%nat -> (length X <= length IDs)%nat ->
  exists out,
    verify IDs X D = Ok out
    /\ false_positives out
       = Z.of_nat (length (filter (fun p => p.2 = 0 \/ ~ (p.2 | p.1))
                                  (zip X D))).
Proof.
  intros Hsize HD HI. eexists. split; [by apply verify_report_of|].
  by rewrite false_positives_report_of, anomaly_count.
Qed.

Lemma false_positives_are_non_divisors_witness :
  exists out,
    verify ["a"; "b"; "c"; "d"] [15; 6; 91; 35] [4; 3; 0; 1] = Ok out
    /\ false_positives out
       = Z.of_nat (length (filter (fun p => p.2 = 0 \/ ~ (p.2 | p.1))
                                  (zip [15; 6; 91; 35] [4; 3; 0; 1]))).
Proof.
  apply (false_positives_are_non_divisors
           ["a"; "b"; "c"; "d"] [15; 6; 91; 35] [4; 3; 0; 1]);
    [reflexivity | simpl; lia | simpl; lia].
Defined.

Example two_false_positives :
  verify ["a"; "b"; "c"; "d"] [15; 6; 91; 35] [4; 3; 0; 1]
  = Ok {| compromised := ["b,3,2"]; duplicates := []; false_positives := 2 |}.
Proof. reflexivity. Qed.

End CheckClaims.

Section RunClaims.

Import Main.

(** C8, as stated, fails: in the run on the moduli 15 and 21 with the
    remainders 46 and 315 the first leaf is an anomaly (46 is not divisible
    by 15), yet no anomaly is counted: the run reports both leaves as
    compromised and a false-positive count of 0. *)
Lemma anomalous_leaf_not_counted :
  46 `rem` 15 <> 0
  /\ finalize ["a"; "b"] [15; 21] [46; 315]
     = Ok {| compromised := ["a,3,5"; "b,3,7"]; duplicates := [];
             false_positives := 0 |}.
Proof. split; [discriminate | reflexivity]. Qed.

(** C8, as amended. Anomalous leaves do not abort the run, but they are not
    counted either.  With fewer than 2^31 leaves and one remainder and one
    identifier per leaf, every run that completes reports a false-positive
    count of 0.  The run completes whenever no modulus is zero, whatever
    the remainders are: every leaf then takes the clean, the duplicate or
    the compromised branch, never the false-positive one, and the report
    holds the identifiers of the duplicates and the lines of the
    compromised leaves in leaf order. *)
Theorem anomalies_never_counted (IDs : list string) (X R : list Z) :
  Z.of_nat (length X) < 2 ^ 31 ->
  (length X <= length R)%nat -> (length X <= length IDs)%nat ->
  (forall out, finalize IDs X R = Ok out -> false_positives out = 0)
  /\ (Forall (fun x => x <> 0) X ->
      let branches :=
        zip IDs (zip_with (fun x r => classify x (Z.gcd (r ÷ x) x)) X R) in
      length branches = length X
      /\ Forall (fun b => b.2 = Clean \/ b.2 = Duplicate
                          \/ exists p q, b.2 = Compromised p q) branches
      /\ exists out,
           finalize IDs X R = Ok out
           /\ false_positives out = 0
           /\ duplicates out = (filter (fun b => b.2 = Duplicate) branches).*1
           /\ compromised out
              = omap (fun '(id, v) =>
                        match v with
                        | Compromised p q => Some (compromised_line id p q)
                        | _ => None
                        end) branches).
Proof.
  intros Hsize HR HI. split.
  - intros out Hout. unfold finalize in Hout.
    destruct (final_gcds X R) as [D|e] eqn:HD; [|done].
    assert (Hnz : Forall (fun x => x <> 0) X)
      by (apply (final_gcds_Ok_nonzero X R D); (done || lia)).
    pose proof (finalize_report IDs X R Hsize HR HI Hnz) as Hrep.
    unfold finalize in Hrep. rewrite HD in Hrep. rewrite Hrep in Hout.
    injection Hout as <-. by apply no_false_positives.
  - intros Hnz branches.
    change branches
      with (zip IDs (zip_with (fun x r => classify x (leaf_gcd x r)) X R)).
    split; [rewrite !length_zip_with; lia|]. split.
    + apply Forall_forall. intros [id v] Hin.
      apply branch_elem_of in Hin as (i & x & r & _ & Hx & _ & ->).
      cbn [snd]. apply classify_leaf_gcd_three.
      rewrite Forall_lookup in Hnz. by apply (Hnz i).
    + eexists. split; [by apply finalize_report|].
      split; [by apply no_false_positives|].
      split; [apply duplicates_report_of | apply compromised_report_of].
Qed.

Lemma anomalies_never_counted_witness :
  false_positives
    {| compromised := ["a,3,5"; "b,3,7"]; duplicates := ["c"];
       false_positives := 0 |} = 0
  /\ (let branches :=
        zip ["a"; "b"; "c"]
            (zip_with (fun x r => classify x (Z.gcd (r ÷ x) x))
                      [15; 21; 91] [46; 315; 0]) in
      length branches = length [15; 21; 91]
      /\ Forall (fun b => b.2 = Clean \/ b.2 = Duplicate
                          \/ exists p q, b.2 = Compromised p q) branches
      /\ exists out,
           finalize ["a"; "b"; "c"] [15; 21; 91] [46; 315; 0] = Ok out
           /\ false_positives out = 0
           /\ duplicates out = (filter (fun b => b.2 = Duplicate) branches).*1
           /\ compromised out
              = omap (fun '(id, v) =>
                        match v with
                        | Compromised p q => Some (compromised_line id p q)
                        | _ => None
                        end) branches).
Proof.
  destruct (anomalies_never_counted
              ["a"; "b"; "c"] [15; 21; 91] [46; 315; 0]) as [Hdone Hrun];
    [reflexivity | simpl; lia | simpl; lia |].
  split; [apply Hdone; reflexivity | apply Hrun; repeat constructor; lia].
Defined.

End RunClaims.
